(** * simple_thread_wrapper: a shallow embedding of [simple_thread]

    The development follows [src/testing-app/simple_thread_wrapper.h]:

    - [unique_lock] is the ownership flag of [std::unique_lock<std::mutex>];
    - [simple_thread_context] is the per-cycle context object with its two
      fields [m_was_timeout] and [m_duration];
    - a user callback [fx] is a program over the context interface
      ([was_timeout], [get_timeout], [set_timeout], [unlock], the holder's
      [reset], [throw]), interpreted by [run_fx];
    - the body of the thread started by [simple_thread::start] is
      [thread_proc], driven by a schedule of wake-ups that stands for what
      the other threads and the clock do;
    - the owner side ([stop], [notify], the destructor) acts on the record
      [simple_thread]. *)

From Stdlib Require Import ZArith List Bool Lia String.
Import ListNotations.
Open Scope Z_scope.

(** ** Durations and the lock *)

(** [std::chrono::steady_clock::duration]: a signed tick count. *)
Definition duration := Z.

(** [std::chrono::nanoseconds(0)], the initial value of [m_duration]. *)
Definition nanoseconds_0 : duration := 0.

(** [std::unique_lock<std::mutex>]: what matters to the wrapper is whether the
    worker thread currently owns the mutex through it. *)
Record unique_lock := { owns_lock : bool }.

(** How a C++ call can end. [Terminated] is [std::terminate], reached when an
    exception leaves a destructor. *)
Inductive outcome :=
| Returned
| Threw
| Terminated.

(** [unique_lock::unlock]: throws [std::system_error] when the lock is not
    owned. *)
Definition ul_unlock (l : unique_lock) : unique_lock * outcome :=
  if owns_lock l then ({| owns_lock := false |}, Returned) else (l, Threw).

(** [unique_lock::lock]: throws [std::system_error] when the lock is already
    owned. *)
Definition ul_lock (l : unique_lock) : unique_lock * outcome :=
  if owns_lock l then (l, Threw) else ({| owns_lock := true |}, Returned).

(** ** internal::simple_thread_unlock_holder_impl *)

Module simple_thread_unlock_holder_impl.

(** The constructor: [m_lock.unlock()]. An exception leaving it means that
    no holder was built. *)
Definition ctor (l : unique_lock) : unique_lock * outcome := ul_unlock l.

(** The destructor: [m_lock.lock()]. A destructor may not throw: an
    exception escaping it ends the process. *)
Definition dtor (l : unique_lock) : unique_lock * outcome :=
  match ul_lock l with
  | (l', Returned) => (l', Returned)
  | (l', _) => (l', Terminated)
  end.

End simple_thread_unlock_holder_impl.

(** ** internal::simple_thread_context *)

Record simple_thread_context := {
  m_was_timeout : bool;
  m_duration : duration
}.

Module ctx.

(** The constructor [simple_thread_context(lock_holder)] with the default
    member initialisers. *)
Definition make : simple_thread_context :=
  {| m_was_timeout := false; m_duration := nanoseconds_0 |}.

Definition was_timeout (c : simple_thread_context) : bool := m_was_timeout c.

Definition get_timeout (c : simple_thread_context) : duration := m_duration c.

Definition set_timeout (d : duration) (c : simple_thread_context)
  : simple_thread_context :=
  {| m_was_timeout := m_was_timeout c; m_duration := d |}.

Definition set_was_timeout (b : bool) (c : simple_thread_context)
  : simple_thread_context :=
  {| m_was_timeout := b; m_duration := m_duration c |}.

Definition get_new_timeout (c : simple_thread_context) : duration :=
  m_duration c.

End ctx.

(** ** User callbacks

    The callback passed to [start] is arbitrary user code. What it can do to
    the wrapper goes through [simple_thread_context_intf] and the holder it
    gets from [unlock]; a callback is therefore a program over that
    interface. [fx_emit] is any output the callback produces (the samples
    print what they read). An exception raised inside the callback, by
    [throw] or by a failing [unlock], leaves it: callbacks that catch their
    own exceptions are those that do not throw. *)

Inductive fx_prog :=
| fx_return
| fx_throw
| fx_was_timeout (k : bool -> fx_prog)
| fx_get_timeout (k : duration -> fx_prog)
| fx_set_timeout (d : duration) (k : fx_prog)
| fx_unlock (k : fx_prog)
| fx_reset (k : fx_prog)
| fx_emit (s : string) (k : fx_prog).

(** What the callback did through the interface, call by call, with the
    values it was given. *)
Inductive fx_call :=
| call_was_timeout (b : bool)
| call_get_timeout (d : duration)
| call_set_timeout (d : duration)
| call_unlock
| call_reset
| call_emit (s : string).

(** What the worker thread holds while a callback runs: the context, the
    loop's [lck], and the number of live holders in the callback's scope. *)
Record fx_state := {
  st_ctx : simple_thread_context;
  st_lck : unique_lock;
  st_holders : nat
}.

(** What a callback leaves behind. *)
Record fx_result := {
  r_state : fx_state;
  r_outcome : outcome;
  r_calls : list fx_call
}.

(** Leaving the callback's scope, normally or by unwinding, destroys the live
    holders one after the other. *)
Fixpoint destroy_holders (n : nat) (l : unique_lock) : unique_lock * outcome :=
  match n with
  | O => (l, Returned)
  | S n' =>
      match simple_thread_unlock_holder_impl.dtor l with
      | (l', Returned) => destroy_holders n' l'
      | (l', o) => (l', o)
      end
  end.

Definition leave_scope (how : outcome) (s : fx_state) (tr : list fx_call)
  : fx_result :=
  match destroy_holders (st_holders s) (st_lck s) with
  | (l', Returned) =>
      {| r_state := {| st_ctx := st_ctx s; st_lck := l'; st_holders := O |};
         r_outcome := how; r_calls := tr |}
  | (l', o) =>
      {| r_state := {| st_ctx := st_ctx s; st_lck := l'; st_holders := O |};
         r_outcome := o; r_calls := tr |}
  end.

(** The callback run on the worker thread; [tr] is what it has done so far. *)
Fixpoint run_fx (p : fx_prog) (s : fx_state) (tr : list fx_call) : fx_result :=
  match p with
  | fx_return => leave_scope Returned s tr
  | fx_throw => leave_scope Threw s tr
  | fx_was_timeout k =>
      let b := ctx.was_timeout (st_ctx s) in
      run_fx (k b) s (tr ++ [call_was_timeout b])
  | fx_get_timeout k =>
      let d := ctx.get_timeout (st_ctx s) in
      run_fx (k d) s (tr ++ [call_get_timeout d])
  | fx_set_timeout d k =>
      run_fx k {| st_ctx := ctx.set_timeout d (st_ctx s);
                  st_lck := st_lck s; st_holders := st_holders s |}
             (tr ++ [call_set_timeout d])
  | fx_unlock k =>
      (* auto h = ctx.unlock(); *)
      match simple_thread_unlock_holder_impl.ctor (st_lck s) with
      | (l', Returned) =>
          run_fx k {| st_ctx := st_ctx s; st_lck := l';
                      st_holders := S (st_holders s) |} (tr ++ [call_unlock])
      | (l', _) =>
          leave_scope Threw {| st_ctx := st_ctx s; st_lck := l';
                               st_holders := st_holders s |} (tr ++ [call_unlock])
      end
  | fx_reset k =>
      (* h.reset(); on an empty unique_ptr this does nothing *)
      match st_holders s with
      | O => run_fx k s (tr ++ [call_reset])
      | S n =>
          match simple_thread_unlock_holder_impl.dtor (st_lck s) with
          | (l', Returned) =>
              run_fx k {| st_ctx := st_ctx s; st_lck := l'; st_holders := n |}
                     (tr ++ [call_reset])
          | (l', o) =>
              {| r_state := {| st_ctx := st_ctx s; st_lck := l'; st_holders := n |};
                 r_outcome := o; r_calls := tr ++ [call_reset] |}
          end
      end
  | fx_emit m k => run_fx k s (tr ++ [call_emit m])
  end.

(** The callback called [set_timeout]. *)
Definition is_set_timeout (c : fx_call) : bool :=
  match c with
  | call_set_timeout _ => true
  | _ => false
  end.

Definition calls_set_timeout (tr : list fx_call) : bool :=
  existsb is_set_timeout tr.

(** The timeout values that the callback's [get_timeout] calls returned. *)
Fixpoint got_timeouts (tr : list fx_call) : list duration :=
  match tr with
  | [] => []
  | call_get_timeout d :: tr' => d :: got_timeouts tr'
  | _ :: tr' => got_timeouts tr'
  end.

(** The answers that the callback's [was_timeout] calls returned. *)
Fixpoint seen_was_timeout (tr : list fx_call) : list bool :=
  match tr with
  | [] => []
  | call_was_timeout b :: tr' => b :: seen_was_timeout tr'
  | _ :: tr' => seen_was_timeout tr'
  end.

(** The value that [m_duration] holds after the calls [tr], from [d0]. *)
Fixpoint last_set_timeout (tr : list fx_call) (d0 : duration) : duration :=
  match tr with
  | [] => d0
  | call_set_timeout d :: tr' => last_set_timeout tr' d
  | _ :: tr' => last_set_timeout tr' d0
  end.

(** The lock discipline of a callback's scope: either no holder is live and
    the worker owns the mutex, or one holder is live and it does not. *)
Definition scoped (s : fx_state) : Prop :=
  (st_holders s = 0%nat /\ owns_lock (st_lck s) = true) \/
  (st_holders s = 1%nat /\ owns_lock (st_lck s) = false).

(** The state in which the loop hands control to the callback. *)
Definition fx_entry (c : simple_thread_context) : fx_state :=
  {| st_ctx := c; st_lck := {| owns_lock := true |}; st_holders := O |}.

(** ** The timed wait

    [m_thread_cv.wait_for(lck, thread_timeout, stop_waiting)] is, by its
    library definition,
    [while (!stop_waiting()) if (wait_until(lck, deadline) == timeout) return stop_waiting(); return true;].
    What the other threads and the clock do during the wait is a list of
    wake-ups: each says how long after the start of the wait the worker got to
    run again (after a [notify_one], a spurious wake-up or the deadline) and
    what it then sees under the reacquired lock. *)

Inductive cv_status := no_timeout | timeout.

Section Thread.

(** The caller's state that the predicate and the extra argument refer to. *)
Variable Ext : Type.
(** The type of the extra callback argument. *)
Variable Arg : Type.

(** What the worker sees while it holds the mutex: the caller's state and
    [m_thread_stop]. *)
Record world := {
  w_ext : Ext;
  m_thread_stop : bool
}.

Record wake := {
  wk_at : duration;
  wk_world : world
}.

(** [wait_until]: [timeout] once the deadline is reached. *)
Definition wait_until (thread_timeout : duration) (w : wake) : cv_status :=
  if thread_timeout <=? wk_at w then timeout else no_timeout.

Record wait_result := {
  wait_res : bool;        (* the value returned by wait_for *)
  wait_at : duration;     (* when it returned, from the start of the wait *)
  wait_world : world;     (* what the worker sees when it returns *)
  wait_rest : list wake   (* wake-ups that were not needed *)
}.

(** [None]: the wait has not returned within the given wake-ups. *)
Fixpoint wait_for (thread_timeout : duration) (stop_waiting : world -> bool)
    (at_ : duration) (now : world) (wakes : list wake) : option wait_result :=
  if stop_waiting now then
    Some {| wait_res := true; wait_at := at_; wait_world := now;
            wait_rest := wakes |}
  else
    match wakes with
    | [] => None
    | w :: rest =>
        match wait_until thread_timeout w with
        | timeout =>
            Some {| wait_res := stop_waiting (wk_world w); wait_at := wk_at w;
                    wait_world := wk_world w; wait_rest := rest |}
        | no_timeout =>
            wait_for thread_timeout stop_waiting (wk_at w) (wk_world w) rest
        end
    end.

(** ** The thread started by [simple_thread::start] *)

(** The arguments of [start]. The lambda given to [std::thread] captures
    with [[&]]: [ax] stays a reference to the caller's object, read through
    the caller's state whenever the callback is invoked. *)
Variable pred : Ext -> bool.
Variable fx : Arg -> fx_prog.
Variable ax : Ext -> Arg.

(** The wait predicate [pred() || m_thread_stop]. *)
Definition stop_waiting (w : world) : bool :=
  pred (w_ext w) || m_thread_stop w.

Definition log_stop : string := " Stop requested".
Definition log_exception : string := " Exception in thread procedure...".

(** One callback invocation as the loop performs it. *)
Record invocation := {
  i_wait_timeout : duration;         (* [thread_timeout] of the wait *)
  i_wait : wait_result;              (* how the wait ended *)
  i_ctx : simple_thread_context;     (* the context handed to [fx] *)
  i_arg : Arg;                       (* the extra argument handed to [fx] *)
  i_result : fx_result;              (* what [fx] left behind *)
  i_log : list string                (* what the loop itself logged *)
}.

Inductive iteration :=
| it_blocked                                   (* still inside wait_for *)
| it_stop (r : wait_result) (log : list string) (* [return;] *)
| it_abort (i : invocation)                     (* std::terminate *)
| it_next (i : invocation) (thread_timeout' : duration).

(** What the environment does during one iteration. *)
Record cycle := {
  c_entry : world;
  c_wakes : list wake
}.

(** The body of [while (true)]. *)
Definition loop_body (thread_timeout : duration) (c : cycle) : iteration :=
  (* std::unique_lock lck(m_thread_mutex); *)
  let lck := {| owns_lock := true |} in
  (* internal::simple_thread_context ctx(lck); *)
  let ctx0 := ctx.make in
  match wait_for thread_timeout stop_waiting 0 (c_entry c) (c_wakes c) with
  | None => it_blocked
  | Some r =>
      if m_thread_stop (wait_world r) then it_stop r [log_stop]
      else
        let ctx1 := ctx.set_was_timeout (negb (wait_res r)) ctx0 in
        let ctx2 := ctx.set_timeout thread_timeout ctx1 in
        let a := ax (w_ext (wait_world r)) in
        let res := run_fx (fx a)
                     {| st_ctx := ctx2; st_lck := lck; st_holders := O |} [] in
        match r_outcome res with
        | Returned =>
            it_next {| i_wait_timeout := thread_timeout; i_wait := r;
                       i_ctx := ctx2; i_arg := a; i_result := res;
                       i_log := [] |}
                    (ctx.get_new_timeout (st_ctx (r_state res)))
        | Threw =>
            (* catch (...) *)
            it_next {| i_wait_timeout := thread_timeout; i_wait := r;
                       i_ctx := ctx2; i_arg := a; i_result := res;
                       i_log := [log_exception] |}
                    (ctx.get_new_timeout (st_ctx (r_state res)))
        | Terminated =>
            it_abort {| i_wait_timeout := thread_timeout; i_wait := r;
                        i_ctx := ctx2; i_arg := a; i_result := res;
                        i_log := [] |}
        end
  end.

Inductive thread_end :=
| Stopped            (* the thread function returned *)
| Blocked            (* waiting, nothing more to wake it *)
| Aborted            (* std::terminate *)
| Running (thread_timeout : duration). (* about to wait again *)

Record thread_run := {
  t_invocations : list invocation;
  t_log : list string;
  t_end : thread_end
}.

(** The thread function: [thread_timeout = timeout; while (true) ...],
    along the iterations that the schedule describes. *)
Fixpoint thread_proc (thread_timeout : duration) (schedule : list cycle)
  : thread_run :=
  match schedule with
  | [] => {| t_invocations := []; t_log := []; t_end := Running thread_timeout |}
  | c :: rest =>
      match loop_body thread_timeout c with
      | it_blocked => {| t_invocations := []; t_log := []; t_end := Blocked |}
      | it_stop _ log => {| t_invocations := []; t_log := log; t_end := Stopped |}
      | it_abort i =>
          {| t_invocations := [i]; t_log := i_log i; t_end := Aborted |}
      | it_next i t' =>
          let run := thread_proc t' rest in
          {| t_invocations := i :: t_invocations run;
             t_log := i_log i ++ t_log run;
             t_end := t_end run |}
      end
  end.

End Thread.

Arguments w_ext {Ext} _.
Arguments m_thread_stop {Ext} _.
Arguments Build_world {Ext} _ _.
Arguments wk_at {Ext} _.
Arguments wk_world {Ext} _.
Arguments Build_wake {Ext} _ _.
Arguments wait_res {Ext} _.
Arguments wait_at {Ext} _.
Arguments wait_world {Ext} _.
Arguments wait_rest {Ext} _.
Arguments wait_until {Ext} _ _.
Arguments wait_for {Ext} _ _ _ _ _.
Arguments stop_waiting {Ext} _ _.
Arguments c_entry {Ext} _.
Arguments c_wakes {Ext} _.
Arguments Build_cycle {Ext} _ _.
Arguments i_wait_timeout {Ext Arg} _.
Arguments i_wait {Ext Arg} _.
Arguments i_ctx {Ext Arg} _.
Arguments i_arg {Ext Arg} _.
Arguments i_result {Ext Arg} _.
Arguments i_log {Ext Arg} _.
Arguments it_blocked {Ext Arg}.
Arguments it_stop {Ext Arg} _ _.
Arguments it_abort {Ext Arg} _.
Arguments it_next {Ext Arg} _ _.
Arguments loop_body {Ext Arg} _ _ _ _ _.
Arguments t_invocations {Ext Arg} _.
Arguments t_log {Ext Arg} _.
Arguments t_end {Ext Arg} _.
Arguments thread_proc {Ext Arg} _ _ _ _ _.

(** The callback invocation of an iteration, if it made one. *)
Definition invoked {Ext Arg} (it : iteration Ext Arg) : option (invocation Ext Arg) :=
  match it with
  | it_next i _ => Some i
  | it_abort i => Some i
  | _ => None
  end.

(** The reading of "a wake-up before the timeout gives a prompt callback":
    whenever the first wake-up of a cycle comes before the deadline, the
    callback runs at that wake-up and is told it was not a timeout. *)
Definition prompt_on_early_wake {Ext Arg} (pred : Ext -> bool)
    (fx : Arg -> fx_prog) (ax : Ext -> Arg)
    (thread_timeout : duration) (c : cycle Ext) : Prop :=
  forall w rest,
    c_wakes c = w :: rest ->
    wk_at w < thread_timeout ->
    m_thread_stop (wk_world w) = false ->
    exists i t',
      loop_body pred fx ax thread_timeout c = it_next i t' /\
      wait_at (i_wait i) = wk_at w /\
      ctx.was_timeout (i_ctx i) = false.

(** ** The owner's side of [simple_thread] *)

Module Owner.

(** [std::thread]: empty, or a handle on a thread that still runs or whose
    function has returned. *)
Inductive std_thread :=
| not_a_thread
| thread_running
| thread_finished.

Definition joinable (t : std_thread) : bool :=
  match t with
  | not_a_thread => false
  | _ => true
  end.

Record simple_thread := {
  m_thread : std_thread;
  m_thread_stop : bool
}.

(** A [simple_thread] as its implicit constructor leaves it. *)
Definition init : simple_thread :=
  {| m_thread := not_a_thread; m_thread_stop := false |}.

(** What a call does, in order. [act_join w]: [m_thread.join()], where [w]
    says whether the caller has to wait for the thread function to return. *)
Inductive action :=
| act_set_stop
| act_notify_one
| act_join (waits : bool).

(** [start]: [m_thread = std::thread(...)]. Assigning to a joinable
    [std::thread] ends the process: [None]. *)
Definition start (t : simple_thread) : option simple_thread :=
  if joinable (m_thread t) then None
  else Some {| m_thread := thread_running; m_thread_stop := m_thread_stop t |}.

Definition join (t : std_thread) : std_thread * action :=
  (not_a_thread,
   act_join match t with thread_running => true | _ => false end).

Definition stop (t : simple_thread) : simple_thread * list action :=
  (* { std::scoped_lock lck(m_thread_mutex); m_thread_stop = true; } *)
  let t1 := {| m_thread := m_thread t; m_thread_stop := true |} in
  (* m_thread_cv.notify_one(); *)
  if joinable (m_thread t1) then
    let (h, a) := join (m_thread t1) in
    ({| m_thread := h; m_thread_stop := m_thread_stop t1 |},
     [act_set_stop; act_notify_one; a])
  else (t1, [act_set_stop; act_notify_one]).

Definition notify (t : simple_thread) : simple_thread * list action :=
  (t, [act_notify_one]).

(** [~simple_thread()]. *)
Definition dtor (t : simple_thread) : simple_thread * list action := stop t.

(** Only a join on a running thread makes the caller wait. *)
Definition may_wait (a : action) : bool :=
  match a with
  | act_join w => w
  | _ => false
  end.

End Owner.

(** ** Sample callers *)

Module Sample.

Definition seconds (n : Z) : duration := n * 1000000000.

(** The caller's state of the test program: the flag [event1] and the
    string [aaa]. *)
Definition Ext : Type := bool * string.
Definition pred (e : Ext) : bool := fst e.
Definition ax (e : Ext) : string := snd e.

(** A callback in the style of the test program: print, take an unlock
    holder, and on a wake-up that was not a timeout set a timeout of two
    seconds and throw. *)
Definition fx (aaa : string) : fx_prog :=
  fx_was_timeout (fun _ =>
  fx_emit aaa
  (fx_unlock
  (fx_was_timeout (fun wt =>
     if negb wt then
       fx_emit "event1 signaled" (fx_set_timeout (seconds 2) fx_throw)
     else fx_reset fx_return)))).

(** A callback that sets a new timeout and then asks for the timeout. *)
Definition fx_set_then_get (_ : string) : fx_prog :=
  fx_set_timeout (seconds 2)
    (fx_get_timeout (fun d =>
       fx_emit (if d =? seconds 2 then "2s" else "other") fx_return)).

(** A callback that only prints its argument. *)
Definition fx_print (a : string) : fx_prog := fx_emit a fx_return.

Definition quiet : world Ext := {| w_ext := (false, "abc"%string); m_thread_stop := false |}.
Definition signalled : world Ext := {| w_ext := (true, "abc"%string); m_thread_stop := false |}.
Definition stopping : world Ext := {| w_ext := (false, "abc"%string); m_thread_stop := true |}.
Definition renamed : world Ext := {| w_ext := (false, "xyz"%string); m_thread_stop := false |}.

(** Nothing happens until the deadline of a one-second wait. *)
Definition cycle_timeout : cycle Ext :=
  {| c_entry := quiet; c_wakes := [ {| wk_at := seconds 1; wk_world := quiet |} ] |}.

(** [event1] is set and [notify] called after 0.3 s. *)
Definition cycle_event : cycle Ext :=
  {| c_entry := quiet;
     c_wakes := [ {| wk_at := 300000000; wk_world := signalled |};
                  {| wk_at := seconds 1; wk_world := signalled |} ] |}.

(** [notify] is called after 0.1 s while the predicate is false; [event1] is
    set and [notify] called again after 0.3 s. *)
Definition cycle_notify_then_event : cycle Ext :=
{| c_entry := quiet;
   c_wakes := [ {| wk_at := 100000000; wk_world := quiet |};
                {| wk_at := 300000000; wk_world := signalled |};
                {| wk_at := seconds 1; wk_world := signalled |} ] |}.

(** [notify] is called after 0.3 s while the predicate is false. *)
Definition cycle_notify_only : cycle Ext :=
  {| c_entry := quiet;
     c_wakes := [ {| wk_at := 300000000; wk_world := quiet |};
                  {| wk_at := seconds 1; wk_world := quiet |} ] |}.

(** The predicate is found true only when the deadline is reached. *)
Definition cycle_late_event : cycle Ext :=
  {| c_entry := quiet; c_wakes := [ {| wk_at := seconds 1; wk_world := signalled |} ] |}.

(** Nothing happens until the deadline of a two-second wait. *)
Definition cycle_timeout_2s : cycle Ext :=
  {| c_entry := quiet; c_wakes := [ {| wk_at := seconds 2; wk_world := quiet |} ] |}.

(** [stop] is called after 0.3 s. *)
Definition cycle_stop : cycle Ext :=
  {| c_entry := quiet;
     c_wakes := [ {| wk_at := 300000000; wk_world := stopping |} ] |}.

(** The caller has changed its string before the deadline. *)
Definition cycle_renamed : cycle Ext :=
  {| c_entry := renamed; c_wakes := [ {| wk_at := seconds 1; wk_world := renamed |} ] |}.

End Sample.

(** ** The overload of [start] without a predicate *)

(** The lambda [[] { return false; }] that the first overload of [start]
    passes as the predicate. *)
Definition no_pred {Ext : Type} (_ : Ext) : bool := false.

(** [start(timeout, fx, ax...)]: it calls the second overload with that
    predicate, so its thread function is the same loop. *)
Definition thread_proc_no_pred {Ext Arg : Type} (fx : Arg -> fx_prog)
    (ax : Ext -> Arg) (timeout : duration) (schedule : list (cycle Ext))
  : thread_run Ext Arg :=
  thread_proc no_pred fx ax timeout schedule.

(** ** Reading a run *)

(** What the [get_timeout] calls of [tr] return when [m_duration] is [d]
    before the first call: each returns the value of the latest
    [set_timeout] before it. *)
Fixpoint replay_gets (tr : list fx_call) (d : duration) : list duration :=
  match tr with
  | [] => []
  | call_set_timeout d' :: tr' => replay_gets tr' d'
  | call_get_timeout _ :: tr' => d :: replay_gets tr' d
  | _ :: tr' => replay_gets tr' d
  end.

(** The value of [thread_timeout] after the invocations [invs], from [T]. *)
Fixpoint timeout_after {Ext Arg : Type} (T : duration)
    (invs : list (invocation Ext Arg)) : duration :=
  match invs with
  | [] => T
  | i :: rest => timeout_after (last_set_timeout (r_calls (i_result i)) T) rest
  end.

(** Each invocation of [invs] waited with the timeout that the invocation
    before it left, the first with [T]. *)
Fixpoint chained {Ext Arg : Type} (T : duration)
    (invs : list (invocation Ext Arg)) : Prop :=
  match invs with
  | [] => True
  | i :: rest =>
      i_wait_timeout i = T /\
      chained (last_set_timeout (r_calls (i_result i)) T) rest
  end.

(** The lines that the loop logs for the invocations [invs]: one for each
    callback that threw. *)
Fixpoint exception_lines {Ext Arg : Type} (invs : list (invocation Ext Arg))
  : list string :=
  match invs with
  | [] => []
  | i :: rest =>
      match r_outcome (i_result i) with
      | Threw => log_exception :: exception_lines rest
      | _ => exception_lines rest
      end
  end.

(** The line that ends the log of a run. *)
Definition stop_line (e : thread_end) : list string :=
  match e with
  | Stopped => [log_stop]
  | _ => []
  end.

(** A callback that asks for an unlock holder twice. *)
Definition fx_unlock_twice (k : fx_prog) : fx_prog := fx_unlock (fx_unlock k).

(** ** More sample callers *)

Module Scenario.

(** A callback that asks for the timeout and prints its argument. *)
Definition fx_get_only (a : string) : fx_prog :=
  fx_get_timeout (fun _ => fx_emit a (fx_get_timeout (fun _ => fx_return))).

(** [event1] is already set when the iteration starts. *)
Definition cycle_already_signalled : cycle Sample.Ext :=
  {| c_entry := Sample.signalled;
     c_wakes := [ {| wk_at := Sample.seconds 1; wk_world := Sample.signalled |} ] |}.

(** The stop flag is already set when the iteration starts. *)
Definition cycle_already_stopped : cycle Sample.Ext :=
  {| c_entry := Sample.stopping;
     c_wakes := [ {| wk_at := Sample.seconds 1; wk_world := Sample.stopping |} ] |}.

(** An object whose thread was started and runs. *)
Definition started : Owner.simple_thread :=
  {| Owner.m_thread := Owner.thread_running; Owner.m_thread_stop := false |}.

(** The same object after a [stop] and a second [start]. *)
Definition restarted : Owner.simple_thread :=
  {| Owner.m_thread := Owner.thread_running; Owner.m_thread_stop := true |}.

End Scenario.

(** * Properties *)

(** ** The callback's scope and the lock *)

Lemma destroy_holders_scoped n l :
  (n = 0%nat /\ owns_lock l = true) \/ (n = 1%nat /\ owns_lock l = false) ->
  exists l', destroy_holders n l = (l', Returned) /\ owns_lock l' = true.
Proof.
  intros [[-> Ho] | [-> Ho]]; simpl.
  - exists l. split; [reflexivity | exact Ho].
  - unfold simple_thread_unlock_holder_impl.dtor, ul_lock. rewrite Ho. simpl.
    eexists. split; reflexivity.
Qed.

Lemma leave_scope_scoped how s tr :
  scoped s ->
  let r := leave_scope how s tr in
  r_outcome r = how /\ owns_lock (st_lck (r_state r)) = true /\
  st_holders (r_state r) = 0%nat /\ st_ctx (r_state r) = st_ctx s /\
  r_calls r = tr.
Proof.
  intros Hs. unfold leave_scope.
  destruct (destroy_holders_scoped _ _ Hs) as (l' & -> & Hl'). simpl.
  repeat split; assumption.
Qed.

(** Whatever the callback does, and however it ends, it never ends the
    process, and when control is back in the loop the worker owns the mutex
    and no holder is left. *)
Lemma run_fx_relocks p : forall s tr,
  scoped s ->
  let r := run_fx p s tr in
  r_outcome r <> Terminated /\
  owns_lock (st_lck (r_state r)) = true /\
  st_holders (r_state r) = 0%nat.
Proof.
  induction p as [ | | k IH | k IH | d k IH | k IH | k IH | m k IH];
    intros s tr Hs; simpl.
  - destruct (leave_scope_scoped Returned s tr Hs) as (Ho & Hl & Hh & _).
    rewrite Ho. repeat split; [discriminate | assumption | assumption].
  - destruct (leave_scope_scoped Threw s tr Hs) as (Ho & Hl & Hh & _).
    rewrite Ho. repeat split; [discriminate | assumption | assumption].
  - apply IH, Hs.
  - apply IH, Hs.
  - apply IH. exact Hs.
  - unfold simple_thread_unlock_holder_impl.ctor, ul_unlock.
    destruct Hs as [[Hh Ho] | [Hh Ho]]; rewrite Ho.
    + apply IH. right. simpl. rewrite Hh. split; reflexivity.
    + match goal with |- context [leave_scope Threw ?s' ?tr'] =>
        destruct (leave_scope_scoped Threw s' tr') as (Ho' & Hl & Hh' & _)
      end.
      { right. simpl. split; assumption. }
      rewrite Ho'. repeat split; [discriminate | assumption | assumption].
  - destruct Hs as [[Hh Ho] | [Hh Ho]]; rewrite Hh.
    + apply IH. left. split; assumption.
    + unfold simple_thread_unlock_holder_impl.dtor, ul_lock. rewrite Ho.
      apply IH. left. simpl. split; reflexivity.
  - apply IH, Hs.
Qed.

Lemma fx_entry_scoped c : scoped (fx_entry c).
Proof. left. split; reflexivity. Qed.

(** ** The callback and the context *)

Lemma last_set_timeout_app tr1 : forall tr2 d0,
  last_set_timeout (tr1 ++ tr2) d0 = last_set_timeout tr2 (last_set_timeout tr1 d0).
Proof.
  induction tr1 as [ | c tr1 IH]; intros tr2 d0; simpl; [reflexivity | ].
  destruct c; apply IH.
Qed.

Lemma last_set_timeout_none tr : forall d0,
  calls_set_timeout tr = false -> last_set_timeout tr d0 = d0.
Proof.
  induction tr as [ | c tr IH]; intros d0 H; simpl in *; [reflexivity | ].
  destruct c; simpl in H; try discriminate; apply IH, H.
Qed.

(** The calls recorded so far stay a prefix of the recorded calls, the
    context's [m_was_timeout] is never changed by the callback, and its
    [m_duration] is what the last [set_timeout] of the callback wrote. *)
Lemma run_fx_context p : forall s tr,
  scoped s ->
  exists tr',
    r_calls (run_fx p s tr) = tr ++ tr' /\
    m_was_timeout (st_ctx (r_state (run_fx p s tr))) = m_was_timeout (st_ctx s) /\
    m_duration (st_ctx (r_state (run_fx p s tr))) =
      last_set_timeout tr' (m_duration (st_ctx s)).
Proof.
  induction p as [ | | k IH | k IH | d k IH | k IH | k IH | m k IH];
    intros s tr Hs; simpl.
  - destruct (leave_scope_scoped Returned s tr Hs) as (_ & _ & _ & Hc & Ht).
    exists []. rewrite Ht, Hc, app_nil_r. repeat split.
  - destruct (leave_scope_scoped Threw s tr Hs) as (_ & _ & _ & Hc & Ht).
    exists []. rewrite Ht, Hc, app_nil_r. repeat split.
  - destruct (IH (ctx.was_timeout (st_ctx s)) s
                (tr ++ [call_was_timeout (ctx.was_timeout (st_ctx s))]) Hs)
      as (tr' & E1 & E2 & E3).
    eexists (_ :: tr'). rewrite E1, E2, E3, <- app_assoc. repeat split.
  - destruct (IH (ctx.get_timeout (st_ctx s)) s
                (tr ++ [call_get_timeout (ctx.get_timeout (st_ctx s))]) Hs)
      as (tr' & E1 & E2 & E3).
    eexists (_ :: tr'). rewrite E1, E2, E3, <- app_assoc. repeat split.
  - match goal with |- context [run_fx k ?s' ?t'] =>
      destruct (IH s' t') as (tr' & E1 & E2 & E3); [exact Hs | ]
    end.
    eexists (_ :: tr'). rewrite E1, E2, E3, <- app_assoc. repeat split.
  - unfold simple_thread_unlock_holder_impl.ctor, ul_unlock.
    destruct Hs as [[Hh Ho] | [Hh Ho]]; rewrite Ho.
    + match goal with |- context [run_fx k ?s' ?t'] =>
        destruct (IH s' t') as (tr' & E1 & E2 & E3)
      end.
      { right. simpl. rewrite Hh. split; reflexivity. }
      eexists (_ :: tr'). rewrite E1, E2, E3, <- app_assoc. repeat split.
    + match goal with |- context [leave_scope Threw ?s' ?t'] =>
        destruct (leave_scope_scoped Threw s' t') as (_ & _ & _ & Hc & Ht)
      end.
      { right. simpl. split; assumption. }
      exists [call_unlock]. rewrite Ht, Hc. repeat split.
  - destruct Hs as [[Hh Ho] | [Hh Ho]]; rewrite Hh.
    + destruct (IH s (tr ++ [call_reset])) as (tr' & E1 & E2 & E3).
      { left. split; assumption. }
      eexists (_ :: tr'). rewrite E1, E2, E3, <- app_assoc. repeat split.
    + unfold simple_thread_unlock_holder_impl.dtor, ul_lock. rewrite Ho.
      match goal with |- context [run_fx k ?s' ?t'] =>
        destruct (IH s' t') as (tr' & E1 & E2 & E3)
      end.
      { left. simpl. split; reflexivity. }
      eexists (_ :: tr'). rewrite E1, E2, E3, <- app_assoc. repeat split.
  - destruct (IH s (tr ++ [call_emit m]) Hs) as (tr' & E1 & E2 & E3).
    eexists (_ :: tr'). rewrite E1, E2, E3, <- app_assoc. repeat split.
Qed.

Lemma seen_was_timeout_app tr1 : forall tr2,
  seen_was_timeout (tr1 ++ tr2) = seen_was_timeout tr1 ++ seen_was_timeout tr2.
Proof.
  induction tr1 as [ | c tr1 IH]; intros tr2; simpl; [reflexivity | ].
  destruct c; simpl; rewrite IH; reflexivity.
Qed.

(** Every [was_timeout] call of a callback returns the flag the loop stored
    before the call. *)
Lemma run_fx_was_timeout p : forall s tr,
  scoped s ->
  Forall (eq (m_was_timeout (st_ctx s))) (seen_was_timeout tr) ->
  Forall (eq (m_was_timeout (st_ctx s)))
         (seen_was_timeout (r_calls (run_fx p s tr))).
Proof.
  induction p as [ | | k IH | k IH | d k IH | k IH | k IH | m k IH];
    intros s tr Hs Htr; simpl.
  - destruct (leave_scope_scoped Returned s tr Hs) as (_ & _ & _ & _ & ->).
    exact Htr.
  - destruct (leave_scope_scoped Threw s tr Hs) as (_ & _ & _ & _ & ->).
    exact Htr.
  - apply IH; [exact Hs | ]. rewrite seen_was_timeout_app.
    apply Forall_app. split; [exact Htr | ]. simpl. repeat constructor.
  - apply IH; [exact Hs | ]. rewrite seen_was_timeout_app, app_nil_r. exact Htr.
  - match goal with |- context [run_fx k ?s' ?t'] =>
      apply (IH s' t'); [exact Hs | ]
    end.
    rewrite seen_was_timeout_app, app_nil_r. exact Htr.
  - unfold simple_thread_unlock_holder_impl.ctor, ul_unlock.
    destruct Hs as [[Hh Ho] | [Hh Ho]]; rewrite Ho.
    + match goal with |- context [run_fx k ?s' ?t'] => apply (IH s' t') end.
      * right. simpl. rewrite Hh. split; reflexivity.
      * rewrite seen_was_timeout_app, app_nil_r. exact Htr.
    + match goal with |- context [leave_scope Threw ?s' ?t'] =>
        destruct (leave_scope_scoped Threw s' t') as (_ & _ & _ & _ & ->)
      end.
      * right. simpl. split; assumption.
      * rewrite seen_was_timeout_app, app_nil_r. exact Htr.
  - destruct Hs as [[Hh Ho] | [Hh Ho]]; rewrite Hh.
    + apply IH; [left; split; assumption | ].
      rewrite seen_was_timeout_app, app_nil_r. exact Htr.
    + unfold simple_thread_unlock_holder_impl.dtor, ul_lock. rewrite Ho.
      match goal with |- context [run_fx k ?s' ?t'] => apply (IH s' t') end.
      * left. simpl. split; reflexivity.
      * rewrite seen_was_timeout_app, app_nil_r. exact Htr.
  - apply IH; [exact Hs | ]. rewrite seen_was_timeout_app, app_nil_r. exact Htr.
Qed.

(** ** The timed wait *)

Section Wait.

Context {Ext : Type}.
Variable thread_timeout : duration.
Variable sw : world Ext -> bool.

(** The value [wait_for] returns is the wait predicate where it returns. *)
Lemma wait_for_res wakes : forall at_ now r,
  wait_for thread_timeout sw at_ now wakes = Some r ->
  wait_res r = sw (wait_world r).
Proof.
  induction wakes as [ | w wakes IH]; intros at_ now r; simpl.
  - destruct (sw now) eqn:E; [ | discriminate].
    intros [= <-]. simpl. symmetry. exact E.
  - destruct (sw now) eqn:E.
    + intros [= <-]. simpl. symmetry. exact E.
    + destruct (wait_until thread_timeout w).
      * apply IH.
      * intros [= <-]. reflexivity.
Qed.

(** [wait_for] returns [false] only when the deadline has been reached. *)
Lemma wait_for_false_deadline wakes : forall at_ now r,
  wait_for thread_timeout sw at_ now wakes = Some r ->
  wait_res r = false ->
  thread_timeout <= wait_at r.
Proof.
  induction wakes as [ | w wakes IH]; intros at_ now r; simpl.
  - destruct (sw now); [ | discriminate].
    intros [= <-]. simpl. discriminate.
  - destruct (sw now).
    + intros [= <-]. simpl. discriminate.
    + unfold wait_until.
      destruct (thread_timeout <=? wk_at w) eqn:E.
      * intros [= <-] _. simpl. apply Z.leb_le, E.
      * apply IH.
Qed.

(** Wake-ups before the deadline at which the wait predicate is false are
    slept through; the first wake-up at which it is true ends the wait. *)
Lemma wait_for_early pre : forall at_ now w post,
  sw now = false ->
  Forall (fun v => wk_at v < thread_timeout /\ sw (wk_world v) = false) pre ->
  sw (wk_world w) = true ->
  wait_for thread_timeout sw at_ now (pre ++ w :: post) =
    Some {| wait_res := true; wait_at := wk_at w; wait_world := wk_world w;
            wait_rest := post |}.
Proof.
  induction pre as [ | v pre IH]; intros at_ now w post Hnow Hpre Hw; simpl;
    rewrite Hnow.
  - unfold wait_until. destruct (thread_timeout <=? wk_at w).
    + rewrite Hw. reflexivity.
    + destruct post; simpl; rewrite Hw; reflexivity.
  - inversion Hpre as [ | ? ? [Hlt Hv] Hpre']; subst.
    unfold wait_until.
    destruct (thread_timeout <=? wk_at v) eqn:E.
    + apply Z.leb_le in E. lia.
    + apply IH; assumption.
Qed.

End Wait.

(** ** The loop *)

Section Loop.

Context {Ext Arg : Type}.
Variable pred : Ext -> bool.
Variable fx : Arg -> fx_prog.
Variable ax : Ext -> Arg.

Local Abbreviation body := (loop_body pred fx ax).
Local Abbreviation proc := (thread_proc pred fx ax).
Local Abbreviation wait := (fun T c =>
  wait_for T (stop_waiting pred) 0 (c_entry c) (c_wakes c)).

(** An iteration whose wait ends without a stop request invokes the
    callback and goes on to the next iteration. *)
Lemma loop_body_dispatch T c r :
  wait T c = Some r ->
  m_thread_stop (wait_world r) = false ->
  let c2 := {| m_was_timeout := negb (wait_res r); m_duration := T |} in
  let a := ax (w_ext (wait_world r)) in
  let res := run_fx (fx a) (fx_entry c2) [] in
 body T c =
    it_next {| i_wait_timeout := T; i_wait := r; i_ctx := c2; i_arg := a;
               i_result := res;
               i_log := match r_outcome res with
                        | Threw => [log_exception]
                        | _ => []
                        end |}
            (m_duration (st_ctx (r_state res))).
Proof.
  intros Hw Hs c2 a res. unfold loop_body. rewrite Hw, Hs.
  change (ctx.set_timeout T (ctx.set_was_timeout (negb (wait_res r)) ctx.make))
    with c2.
  fold a. change (run_fx (fx a) _ []) with res.
  destruct (run_fx_relocks (fx a) (fx_entry c2) [] (fx_entry_scoped c2))
    as (Hnt & _).
  fold res in Hnt.
  destruct (r_outcome res); [reflexivity | reflexivity | congruence].
Qed.

(** An iteration that invoked the callback is of that form. *)
Lemma loop_body_invoked T c i :
  invoked (body T c) = Some i ->
  exists r,
    wait T c = Some r /\
    m_thread_stop (wait_world r) = false /\
    i_wait_timeout i = T /\
    i_wait i = r /\
    i_ctx i = {| m_was_timeout := negb (wait_res r); m_duration := T |} /\
    i_result i = run_fx (fx (i_arg i)) (fx_entry (i_ctx i)) [] /\
    i_arg i = ax (w_ext (wait_world r)) /\
    i_log i = match r_outcome (i_result i) with
              | Threw => [log_exception]
              | _ => []
              end /\
    body T c = it_next i (m_duration (st_ctx (r_state (i_result i)))).
Proof.
  intros Hi.
  destruct (wait T c) as [r | ] eqn:Hw.
  - destruct (m_thread_stop (wait_world r)) eqn:Hs.
    + unfold loop_body in Hi. simpl in Hw. rewrite Hw, Hs in Hi.
      discriminate.
    + pose proof (loop_body_dispatch T c r Hw Hs) as E. simpl in E.
      rewrite E in Hi. injection Hi as <-. rewrite E.
      exists r. simpl. repeat split; try reflexivity; assumption.
  - unfold loop_body in Hi. simpl in Hw. rewrite Hw in Hi.
    discriminate.
Qed.

(** One more iteration of the thread function after an invocation. *)
Lemma thread_proc_next T c rest i t' :
  body T c = it_next i t' ->
  proc T (c :: rest) =
    {| t_invocations := i :: t_invocations (proc t' rest);
       t_log := i_log i ++ t_log (proc t' rest);
       t_end := t_end (proc t' rest) |}.
Proof. intros E. simpl. rewrite E. reflexivity. Qed.

(** No invocation of a run was made on a wake-up that saw the stop flag. *)
Lemma invocations_not_stopped schedule : forall T,
  Forall (fun i => m_thread_stop (wait_world (i_wait i)) = false)
         (t_invocations (proc T schedule)).
Proof.
  induction schedule as [ | c rest IH]; intros T; simpl; [constructor | ].
  destruct (body T c) as [ | r l | i | i t'] eqn:E;
    simpl; try constructor.
  - destruct (loop_body_invoked T c i) as (r & _ & Hs & _ & <- & _).
    { rewrite E. reflexivity. }
    exact Hs.
  - constructor.
  - destruct (loop_body_invoked T c i) as (r & _ & Hs & _ & <- & _).
    { rewrite E. reflexivity. }
    exact Hs.
  - apply IH.
Qed.

(** ** One dispatch cycle *)

(** C2. In a dispatch cycle whose callback throws, the exception is caught
    by the loop: exactly one line is logged for it, the iteration ends like
    any other, and the thread function goes on with the next wait, whose
    timeout is the value the context held when the callback failed, that is
    the value of the last [set_timeout] the callback made before throwing
    (the timeout of the wait just finished when it made none). *)
Theorem callback_exception_is_suppressed T c rest i :
  invoked (body T c) = Some i ->
  r_outcome (i_result i) = Threw ->
  exists t',
    body T c = it_next i t' /\
    i_log i = [log_exception] /\
    t' = ctx.get_new_timeout (st_ctx (r_state (i_result i))) /\
    t' = last_set_timeout (r_calls (i_result i)) T /\
    proc T (c :: rest) =
      {| t_invocations := i :: t_invocations (proc t' rest);
         t_log := log_exception :: t_log (proc t' rest);
         t_end := t_end (proc t' rest) |}.
Proof.
  intros Hi Ho.
  destruct (loop_body_invoked T c i Hi)
    as (r & _ & _ & _ & _ & Hc & Hr & _ & Hl & E).
  rewrite Ho in Hl.
  exists (m_duration (st_ctx (r_state (i_result i)))).
  split; [exact E | ]. split; [exact Hl | ]. split; [reflexivity | ]. split.
  - rewrite Hr.
    destruct (run_fx_context (fx (i_arg i)) (fx_entry (i_ctx i)) []
                (fx_entry_scoped _)) as (tr' & E1 & _ & E3).
    rewrite E3, E1, Hc. reflexivity.
  - rewrite (thread_proc_next T c rest i _ E), Hl. reflexivity.
Qed.

(** C4. When the wait of an iteration ends with the stop flag set, the
    iteration logs the stop request and returns from the thread function:
    the callback is not invoked, and whatever the schedule still holds is
    never run. *)
Theorem stop_wake_ends_thread_without_callback T c rest r :
  wait T c = Some r ->
  m_thread_stop (wait_world r) = true ->
  body T c = it_stop r [log_stop] /\
  invoked (body T c) = None /\
  proc T (c :: rest) =
    {| t_invocations := []; t_log := [log_stop]; t_end := Stopped |}.
Proof.
  intros Hw Hs.
  assert (E : body T c = it_stop r [log_stop]).
  { unfold loop_body. rewrite Hw, Hs. reflexivity. }
  split; [exact E | ]. split.
  - rewrite E. reflexivity.
  - simpl. rewrite E. reflexivity.
Qed.

(** C5. In every cycle that reaches the callback, [was_timeout()] is the
    negation of the wait predicate (predicate or stop) as evaluated when the
    wait returned: it is what [wait_for] returned, negated, every call of
    the callback gets this value, and when it is true the deadline of the
    wait had been reached. *)
Theorem was_timeout_is_negated_wait_predicate T c i :
  invoked (body T c) = Some i ->
  ctx.was_timeout (i_ctx i) = negb (stop_waiting pred (wait_world (i_wait i))) /\
  ctx.was_timeout (i_ctx i) = negb (wait_res (i_wait i)) /\
  Forall (eq (negb (stop_waiting pred (wait_world (i_wait i)))))
         (seen_was_timeout (r_calls (i_result i))) /\
  (ctx.was_timeout (i_ctx i) = true -> i_wait_timeout i <= wait_at (i_wait i)).
Proof.
  intros Hi.
  destruct (loop_body_invoked T c i Hi)
    as (r & Hw & _ & HT & Hwr & Hc & Hr & _).
  pose proof (wait_for_res _ _ _ _ _ _ Hw) as Hres.
  assert (Hwt : ctx.was_timeout (i_ctx i) = negb (wait_res (i_wait i))).
  { rewrite Hc, Hwr. reflexivity. }
  split; [ | split; [exact Hwt | split]].
  - rewrite Hwt, Hwr, Hres. reflexivity.
  - rewrite Hr, Hwr, <- Hres.
    replace (negb (wait_res r)) with (m_was_timeout (st_ctx (fx_entry (i_ctx i))))
      by (rewrite Hc; reflexivity).
    apply run_fx_was_timeout; [apply fx_entry_scoped | constructor].
  - rewrite Hwt, HT, Hwr. intros Hf.
    apply (wait_for_false_deadline _ _ _ _ _ _ Hw).
    destruct (wait_res r); [discriminate | reflexivity].
Qed.

(** C7. In a dispatch cycle whose callback does not call [set_timeout], the
    timeout of the next wait is the timeout of the wait just finished. *)
Theorem timeout_kept_without_set_timeout T c rest i :
  invoked (body T c) = Some i ->
  calls_set_timeout (r_calls (i_result i)) = false ->
  i_wait_timeout i = T /\
  body T c = it_next i T /\
  proc T (c :: rest) =
    {| t_invocations := i :: t_invocations (proc T rest);
       t_log := i_log i ++ t_log (proc T rest);
       t_end := t_end (proc T rest) |}.
Proof.
  intros Hi Hn.
  destruct (loop_body_invoked T c i Hi)
    as (r & _ & _ & HT & _ & Hc & Hr & _ & _ & E).
  assert (Ed : m_duration (st_ctx (r_state (i_result i))) = T).
  { rewrite Hr.
    destruct (run_fx_context (fx (i_arg i)) (fx_entry (i_ctx i)) []
                (fx_entry_scoped _)) as (tr' & E1 & _ & E3).
    rewrite E3. rewrite Hr, E1 in Hn. simpl in Hn.
    rewrite (last_set_timeout_none _ _ Hn), Hc. reflexivity. }
  rewrite Ed in E.
  split; [exact HT | ]. split; [exact E | ].
  apply thread_proc_next, E.
Qed.

(** C9. In every cycle that reaches the callback, whatever the callback
    does and however it ends, in particular when it throws while an unlock
    holder is live, the holder has been destroyed and the worker owns the
    mutex again when control is back in the loop (at the catch handler and
    at the read-back of the next timeout); no destructor ends the process,
    and the iteration goes on to the next wait, which starts with the
    mutex owned. *)
Theorem lock_held_after_callback T c i :
  invoked (body T c) = Some i ->
  owns_lock (st_lck (r_state (i_result i))) = true /\
  st_holders (r_state (i_result i)) = 0%nat /\
  r_outcome (i_result i) <> Terminated /\
  exists t', body T c = it_next i t'.
Proof.
  intros Hi.
  destruct (loop_body_invoked T c i Hi)
    as (r & _ & _ & _ & _ & _ & Hr & _ & _ & E).
  destruct (run_fx_relocks (fx (i_arg i)) (fx_entry (i_ctx i)) []
              (fx_entry_scoped _)) as (Hnt & Ho & Hh).
  rewrite <- Hr in Hnt, Ho, Hh.
  repeat split; try assumption.
  eexists. exact E.
Qed.

(** C3, as the code has it. If the worker is woken before the timeout has
    elapsed and finds the predicate true and no stop requested, after
    earlier wake-ups that found the wait predicate false, the callback is
    invoked at that wake-up, before the timeout, and [was_timeout()] is
    false in that invocation. *)
Theorem early_wake_with_predicate_is_prompt T c pre w post :
  c_wakes c = pre ++ w :: post ->
  stop_waiting pred (c_entry c) = false ->
  Forall (fun v => wk_at v < T /\ stop_waiting pred (wk_world v) = false) pre ->
  pred (w_ext (wk_world w)) = true ->
  m_thread_stop (wk_world w) = false ->
  wk_at w < T ->
  exists i t',
    body T c = it_next i t' /\
    wait_at (i_wait i) = wk_at w /\
    wait_at (i_wait i) < T /\
    ctx.was_timeout (i_ctx i) = false /\
    Forall (eq false) (seen_was_timeout (r_calls (i_result i))).
Proof.
  intros Hc He Hpre Hp Hs Hlt.
  assert (Hw : wait T c =
               Some {| wait_res := true; wait_at := wk_at w;
                       wait_world := wk_world w; wait_rest := post |}).
  { simpl. rewrite Hc. apply wait_for_early; try assumption.
    unfold stop_waiting. rewrite Hp. reflexivity. }
  pose proof (loop_body_dispatch T c _ Hw Hs) as E. simpl in E.
  do 2 eexists. split; [exact E | ]. simpl.
  repeat split; try assumption.
  apply (run_fx_was_timeout _ (fx_entry {| m_was_timeout := false; m_duration := T |}));
    [apply fx_entry_scoped | constructor].
Qed.

End Loop.

(** ** The context's single timeout field *)

(** C1. [get_timeout] and [set_timeout] share the field [m_duration], so a
    [get_timeout()] made after [set_timeout(d)] in the same invocation returns
    [d], not the timeout of the wait just finished: after a one-second wait,
    the sample callback that sets two seconds and then asks is told two
    seconds. *)
Theorem get_timeout_after_set_timeout_returns_new_value :
  (forall T b d,
     got_timeouts
       (r_calls (run_fx (fx_set_timeout d (fx_get_timeout (fun _ => fx_return)))
                        (fx_entry {| m_was_timeout := b; m_duration := T |}) []))
     = [d]) /\
  exists i t',
    loop_body Sample.pred Sample.fx_set_then_get Sample.ax
              (Sample.seconds 1) Sample.cycle_timeout = it_next i t' /\
    i_wait_timeout i = Sample.seconds 1 /\
    got_timeouts (r_calls (i_result i)) = [Sample.seconds 2].
Proof.
  split.
  - intros T b d. reflexivity.
  - do 2 eexists. split; [reflexivity | ]. split; reflexivity.
Qed.

(** ** Extra arguments *)

(** C6. The thread's lambda captures [ax] by reference: each invocation is
    handed the caller's object as it is at that time. With the caller's string
    changed from "abc" to "xyz" between two cycles, the second invocation
    receives "xyz". *)
Theorem extra_argument_follows_callers_object :
  map i_arg
      (t_invocations
         (thread_proc Sample.pred Sample.fx_print Sample.ax (Sample.seconds 1)
                      [Sample.cycle_timeout; Sample.cycle_renamed]))
  = ["abc"%string; "xyz"%string].
Proof. reflexivity. Qed.

(** ** Wake-ups before the timeout *)

(** C3 fails as stated: a [notify] after 0.3 s of a one-second wait, with the
    predicate false, does not lead to a callback at that wake-up. The wait
    resumes and the callback runs at the deadline, with [was_timeout()]
    true. *)
Lemma notify_without_predicate_is_not_prompt :
  ~ prompt_on_early_wake Sample.pred Sample.fx_print Sample.ax
      (Sample.seconds 1) Sample.cycle_notify_only.
Proof.
  intros H.
  destruct (H _ _ eq_refl) as (i & t' & E & Hat & Hwt).
  - vm_compute. reflexivity.
  - reflexivity.
  - vm_compute in E. injection E as <- _. vm_compute in Hwt. discriminate.
Qed.

(** ** stop, notify and the destructor *)

(** C8. A second [stop] after a [stop] sets the flag and signals again but
    joins nothing, so it cannot make the caller wait, and it leaves the object
    as it was; a [stop] on a thread whose function has already returned joins
    without waiting; the destructor is a [stop], which on a running thread
    sets the flag, signals and joins. *)
Theorem stop_is_idempotent (t : Owner.simple_thread) :
  Owner.stop (fst (Owner.stop t)) =
    (fst (Owner.stop t), [Owner.act_set_stop; Owner.act_notify_one]) /\
  existsb Owner.may_wait (snd (Owner.stop (fst (Owner.stop t)))) = false /\
  Owner.joinable (Owner.m_thread (fst (Owner.stop t))) = false /\
  Owner.m_thread_stop (fst (Owner.stop t)) = true /\
  (forall b,
     Owner.stop {| Owner.m_thread := Owner.thread_finished;
                   Owner.m_thread_stop := b |} =
       ({| Owner.m_thread := Owner.not_a_thread; Owner.m_thread_stop := true |},
        [Owner.act_set_stop; Owner.act_notify_one; Owner.act_join false])) /\
  Owner.dtor t = Owner.stop t /\
  (forall b,
     Owner.dtor {| Owner.m_thread := Owner.thread_running;
                   Owner.m_thread_stop := b |} =
       ({| Owner.m_thread := Owner.not_a_thread; Owner.m_thread_stop := true |},
        [Owner.act_set_stop; Owner.act_notify_one; Owner.act_join true])).
Proof.
  destruct t as [[ | | ] b]; repeat split; reflexivity.
Qed.

(** C10. [stop] on a [simple_thread] that was never started sets the stop
    flag, signals the condition variable and returns without joining, since
    the thread handle is not joinable; nothing in it can make the caller
    wait. The destructor of such an object does the same. *)
Theorem stop_never_started :
  Owner.joinable (Owner.m_thread Owner.init) = false /\
  Owner.stop Owner.init =
    ({| Owner.m_thread := Owner.not_a_thread; Owner.m_thread_stop := true |},
     [Owner.act_set_stop; Owner.act_notify_one]) /\
  existsb Owner.may_wait (snd (Owner.stop Owner.init)) = false /\
  Owner.dtor Owner.init = Owner.stop Owner.init.
Proof. repeat split; reflexivity. Qed.

(** ** The sample callers *)

(** The sample callback throws on the event wake-up after setting two
    seconds: one log line, and the next wait runs with two seconds. *)
Lemma callback_exception_is_suppressed_witness :
  exists i,
    invoked (loop_body Sample.pred Sample.fx Sample.ax (Sample.seconds 1)
                       Sample.cycle_event) = Some i /\
    r_outcome (i_result i) = Threw /\
    exists t',
      loop_body Sample.pred Sample.fx Sample.ax (Sample.seconds 1)
                Sample.cycle_event = it_next i t' /\
      i_log i = [log_exception] /\
      t' = ctx.get_new_timeout (st_ctx (r_state (i_result i))) /\
      t' = last_set_timeout (r_calls (i_result i)) (Sample.seconds 1) /\
      thread_proc Sample.pred Sample.fx Sample.ax (Sample.seconds 1)
                  [Sample.cycle_event; Sample.cycle_timeout_2s] =
        {| t_invocations :=
             i :: t_invocations
                    (thread_proc Sample.pred Sample.fx Sample.ax t'
                                 [Sample.cycle_timeout_2s]);
           t_log :=
             log_exception
               :: t_log (thread_proc Sample.pred Sample.fx Sample.ax t'
                                     [Sample.cycle_timeout_2s]);
           t_end :=
             t_end (thread_proc Sample.pred Sample.fx Sample.ax t'
                                [Sample.cycle_timeout_2s]) |}.
Proof.
  eexists. split; [reflexivity | ]. split; [reflexivity | ].
  apply (callback_exception_is_suppressed Sample.pred Sample.fx Sample.ax
           (Sample.seconds 1) Sample.cycle_event [Sample.cycle_timeout_2s]);
    reflexivity.
Defined.

(** A [stop] after 0.3 s: the thread function returns, nothing is invoked. *)
Lemma stop_wake_ends_thread_without_callback_witness :
  exists r,
    wait_for (Sample.seconds 1) (stop_waiting Sample.pred) 0
             (c_entry Sample.cycle_stop) (c_wakes Sample.cycle_stop) = Some r /\
    m_thread_stop (wait_world r) = true /\
    loop_body Sample.pred Sample.fx Sample.ax (Sample.seconds 1)
              Sample.cycle_stop = it_stop r [log_stop] /\
    invoked (loop_body Sample.pred Sample.fx Sample.ax (Sample.seconds 1)
                       Sample.cycle_stop) = None /\
    thread_proc Sample.pred Sample.fx Sample.ax (Sample.seconds 1)
                [Sample.cycle_stop; Sample.cycle_timeout] =
      {| t_invocations := []; t_log := [log_stop]; t_end := Stopped |}.
Proof.
  eexists. split; [reflexivity | ]. split; [reflexivity | ].
  apply (stop_wake_ends_thread_without_callback Sample.pred Sample.fx Sample.ax
           (Sample.seconds 1) Sample.cycle_stop [Sample.cycle_timeout]);
    reflexivity.
Defined.

(** A plain timeout cycle of the sample caller. *)
Lemma was_timeout_is_negated_wait_predicate_witness :
  exists i,
    invoked (loop_body Sample.pred Sample.fx Sample.ax (Sample.seconds 1)
                       Sample.cycle_timeout) = Some i /\
    ctx.was_timeout (i_ctx i) =
      negb (stop_waiting Sample.pred (wait_world (i_wait i))) /\
    ctx.was_timeout (i_ctx i) = negb (wait_res (i_wait i)) /\
    Forall (eq (negb (stop_waiting Sample.pred (wait_world (i_wait i)))))
           (seen_was_timeout (r_calls (i_result i))) /\
    (ctx.was_timeout (i_ctx i) = true -> i_wait_timeout i <= wait_at (i_wait i)).
Proof.
  eexists. split; [reflexivity | ].
  apply (was_timeout_is_negated_wait_predicate Sample.pred Sample.fx Sample.ax
           (Sample.seconds 1) Sample.cycle_timeout).
  reflexivity.
Defined.

(** The printing callback never calls [set_timeout]. *)
Lemma timeout_kept_without_set_timeout_witness :
  exists i,
    invoked (loop_body Sample.pred Sample.fx_print Sample.ax (Sample.seconds 1)
                       Sample.cycle_timeout) = Some i /\
    calls_set_timeout (r_calls (i_result i)) = false /\
    i_wait_timeout i = Sample.seconds 1 /\
    loop_body Sample.pred Sample.fx_print Sample.ax (Sample.seconds 1)
              Sample.cycle_timeout = it_next i (Sample.seconds 1) /\
    thread_proc Sample.pred Sample.fx_print Sample.ax (Sample.seconds 1)
                [Sample.cycle_timeout; Sample.cycle_timeout] =
      {| t_invocations :=
           i :: t_invocations
                  (thread_proc Sample.pred Sample.fx_print Sample.ax
                               (Sample.seconds 1) [Sample.cycle_timeout]);
         t_log :=
           i_log i ++ t_log (thread_proc Sample.pred Sample.fx_print Sample.ax
                                         (Sample.seconds 1) [Sample.cycle_timeout]);
         t_end :=
           t_end (thread_proc Sample.pred Sample.fx_print Sample.ax
                              (Sample.seconds 1) [Sample.cycle_timeout]) |}.
Proof.
  eexists. split; [reflexivity | ]. split; [reflexivity | ].
  apply (timeout_kept_without_set_timeout Sample.pred Sample.fx_print Sample.ax
           (Sample.seconds 1) Sample.cycle_timeout [Sample.cycle_timeout]);
    reflexivity.
Defined.

(** The sample callback throws while its unlock holder is live. *)
Lemma lock_held_after_callback_witness :
  exists i,
    invoked (loop_body Sample.pred Sample.fx Sample.ax (Sample.seconds 1)
                       Sample.cycle_event) = Some i /\
    r_outcome (i_result i) = Threw /\
    existsb (fun c => match c with call_reset => true | _ => false end)
            (r_calls (i_result i)) = false /\
    owns_lock (st_lck (r_state (i_result i))) = true /\
    st_holders (r_state (i_result i)) = 0%nat /\
    r_outcome (i_result i) <> Terminated /\
    exists t',
      loop_body Sample.pred Sample.fx Sample.ax (Sample.seconds 1)
                Sample.cycle_event = it_next i t'.
Proof.
  eexists. split; [reflexivity | ]. split; [reflexivity | ].
  split; [reflexivity | ].
  apply (lock_held_after_callback Sample.pred Sample.fx Sample.ax
           (Sample.seconds 1) Sample.cycle_event).
  reflexivity.
Defined.

(** A [notify] that finds the predicate false after 0.1 s, then the event set
    and [notify] called 0.3 s into a one-second wait. *)
Lemma early_wake_with_predicate_is_prompt_witness :
  exists i t',
    loop_body Sample.pred Sample.fx Sample.ax (Sample.seconds 1)
              Sample.cycle_notify_then_event = it_next i t' /\
    wait_at (i_wait i) = 300000000 /\
    wait_at (i_wait i) < Sample.seconds 1 /\
    ctx.was_timeout (i_ctx i) = false /\
    Forall (eq false) (seen_was_timeout (r_calls (i_result i))).
Proof.
  apply (early_wake_with_predicate_is_prompt Sample.pred Sample.fx Sample.ax
           (Sample.seconds 1) Sample.cycle_notify_then_event
           [ {| wk_at := 100000000; wk_world := Sample.quiet |} ]
           {| wk_at := 300000000; wk_world := Sample.signalled |}
           [ {| wk_at := Sample.seconds 1; wk_world := Sample.signalled |} ]).
  - reflexivity.
  - reflexivity.
  - constructor; [split; reflexivity | constructor].
  - reflexivity.
  - reflexivity.
  - reflexivity.
Defined.

(** * Further properties of the code *)

(** ** The timed wait *)

Section WaitMore.

Context {Ext : Type}.
Variable thread_timeout : duration.
Variable sw : world Ext -> bool.

(** X1. Wake-ups before the deadline that find the wait predicate false
    (a [notify] with nothing to report, a spurious wake-up) leave no trace:
    the wait ends as it would have ended without them. *)
Theorem wait_for_ignores_false_wakes pre : forall at_ now wakes,
  sw now = false ->
  Forall (fun v => wk_at v < thread_timeout /\ sw (wk_world v) = false) pre ->
  wait_for thread_timeout sw at_ now (pre ++ wakes) =
  wait_for thread_timeout sw at_ now wakes.
Proof.
  induction pre as [ | v pre IH]; intros at_ now wakes Hnow Hpre;
    [reflexivity | ].
  inversion Hpre as [ | ? ? [Hlt Hv] Hpre']; subst.
  simpl. rewrite Hnow. unfold wait_until.
  destruct (thread_timeout <=? wk_at v) eqn:E.
  - apply Z.leb_le in E. lia.
  - rewrite (IH (wk_at v) (wk_world v) wakes Hv Hpre').
    destruct wakes as [ | w wakes]; simpl; rewrite Hv, ?Hnow; reflexivity.
Qed.

(** X2. The wait is bounded by its timeout: as soon as the worker gets to run
    at or after the deadline, [wait_for] has returned, and a [false] result
    means that the deadline was reached. *)
Theorem wait_for_returns_by_deadline wakes : forall at_ now,
  Exists (fun w => thread_timeout <= wk_at w) wakes ->
  exists r,
    wait_for thread_timeout sw at_ now wakes = Some r /\
    (wait_res r = true \/ thread_timeout <= wait_at r).
Proof.
  induction wakes as [ | w wakes IH]; intros at_ now Hex.
  - inversion Hex.
  - simpl. destruct (sw now) eqn:Hnow.
    + eexists. split; [reflexivity | ]. left. reflexivity.
    + unfold wait_until. destruct (thread_timeout <=? wk_at w) eqn:E.
      * eexists. split; [reflexivity | ]. right. simpl. apply Z.leb_le, E.
      * inversion Hex as [? ? Hd | ? ? Hex']; subst.
        -- apply Z.leb_gt in E. lia.
        -- apply IH, Hex'.
Qed.

End WaitMore.

(** ** The callback, the context and the holder *)

Lemma got_timeouts_app tr1 : forall tr2,
  got_timeouts (tr1 ++ tr2) = got_timeouts tr1 ++ got_timeouts tr2.
Proof.
  induction tr1 as [ | c tr1 IH]; intros tr2; simpl; [reflexivity | ].
  destruct c; simpl; rewrite IH; reflexivity.
Qed.

Lemma replay_gets_app tr1 : forall tr2 d,
  replay_gets (tr1 ++ tr2) d =
  replay_gets tr1 d ++ replay_gets tr2 (last_set_timeout tr1 d).
Proof.
  induction tr1 as [ | c tr1 IH]; intros tr2 d; simpl; [reflexivity | ].
  destruct c; simpl; rewrite IH; reflexivity.
Qed.

Lemma replay_gets_no_set tr : forall d,
  calls_set_timeout tr = false -> Forall (eq d) (replay_gets tr d).
Proof.
  induction tr as [ | c tr IH]; intros d H; simpl in *; [constructor | ].
  destruct c; simpl in H; try discriminate; try (apply IH, H).
  constructor; [reflexivity | apply IH, H].
Qed.

(** The calls a callback adds to the record, with what its [get_timeout]
    calls were given and the value it leaves in [m_duration]. *)
Lemma run_fx_gets p : forall s tr,
  scoped s ->
  exists tr',
    r_calls (run_fx p s tr) = tr ++ tr' /\
    got_timeouts tr' = replay_gets tr' (m_duration (st_ctx s)).
Proof.
  induction p as [ | | k IH | k IH | d k IH | k IH | k IH | m k IH];
    intros s tr Hs; simpl.
  - destruct (leave_scope_scoped Returned s tr Hs) as (_ & _ & _ & _ & ->).
    exists []. rewrite app_nil_r. split; reflexivity.
  - destruct (leave_scope_scoped Threw s tr Hs) as (_ & _ & _ & _ & ->).
    exists []. rewrite app_nil_r. split; reflexivity.
  - destruct (IH (ctx.was_timeout (st_ctx s)) s
                (tr ++ [call_was_timeout (ctx.was_timeout (st_ctx s))]) Hs)
      as (tr' & E1 & E2).
    eexists (_ :: tr'). rewrite E1, <- app_assoc. split; [reflexivity | exact E2].
  - destruct (IH (ctx.get_timeout (st_ctx s)) s
                (tr ++ [call_get_timeout (ctx.get_timeout (st_ctx s))]) Hs)
      as (tr' & E1 & E2).
    eexists (_ :: tr'). rewrite E1, <- app_assoc. split; [reflexivity | ].
    simpl. rewrite E2. reflexivity.
  - match goal with |- context [run_fx k ?s' ?t'] =>
      destruct (IH s' t') as (tr' & E1 & E2); [exact Hs | ]
    end.
    eexists (_ :: tr'). rewrite E1, <- app_assoc. split; [reflexivity | exact E2].
  - unfold simple_thread_unlock_holder_impl.ctor, ul_unlock.
    destruct Hs as [[Hh Ho] | [Hh Ho]]; rewrite Ho.
    + match goal with |- context [run_fx k ?s' ?t'] =>
        destruct (IH s' t') as (tr' & E1 & E2)
      end.
      { right. simpl. rewrite Hh. split; reflexivity. }
      eexists (_ :: tr'). rewrite E1, <- app_assoc.
      split; [reflexivity | exact E2].
    + match goal with |- context [leave_scope Threw ?s' ?t'] =>
        destruct (leave_scope_scoped Threw s' t') as (_ & _ & _ & _ & ->)
      end.
      { right. simpl. split; assumption. }
      exists [call_unlock]. split; reflexivity.
  - destruct Hs as [[Hh Ho] | [Hh Ho]]; rewrite Hh.
    + destruct (IH s (tr ++ [call_reset])) as (tr' & E1 & E2).
      { left. split; assumption. }
      eexists (_ :: tr'). rewrite E1, <- app_assoc.
      split; [reflexivity | exact E2].
    + unfold simple_thread_unlock_holder_impl.dtor, ul_lock. rewrite Ho.
      match goal with |- context [run_fx k ?s' ?t'] =>
        destruct (IH s' t') as (tr' & E1 & E2)
      end.
      { left. simpl. split; reflexivity. }
      eexists (_ :: tr'). rewrite E1, <- app_assoc.
      split; [reflexivity | exact E2].
  - destruct (IH s (tr ++ [call_emit m]) Hs) as (tr' & E1 & E2).
    eexists (_ :: tr'). rewrite E1, <- app_assoc.
    split; [reflexivity | exact E2].
Qed.

(** X3. Taking an unlock holder and resetting it, even twice, is a round
    trip: the callback goes on exactly as if it had done neither, with the
    mutex owned and no holder left; the second [reset] finds an empty
    pointer and does nothing. *)
Theorem unlock_reset_reset_round_trip k c tr :
  run_fx (fx_unlock (fx_reset (fx_reset k))) (fx_entry c) tr =
  run_fx k (fx_entry c) (tr ++ [call_unlock; call_reset; call_reset]).
Proof.
  simpl. unfold fx_entry. rewrite <- !app_assoc. reflexivity.
Qed.

(** ** One iteration *)

Section LoopMore.

Context {Ext Arg : Type}.
Variable pred : Ext -> bool.
Variable fx : Arg -> fx_prog.
Variable ax : Ext -> Arg.

Local Abbreviation body := (loop_body pred fx ax).
Local Abbreviation proc := (thread_proc pred fx ax).

(** X4. In every cycle that reaches the callback, each [get_timeout()] call
    returns the value of the latest [set_timeout] made before it in the same
    invocation, and the timeout of the wait just finished when there was
    none. *)
Theorem get_timeout_returns_latest_value T c i :
  invoked (body T c) = Some i ->
  got_timeouts (r_calls (i_result i)) = replay_gets (r_calls (i_result i)) T.
Proof.
  intros Hi.
  destruct (loop_body_invoked pred fx ax T c i Hi)
    as (r & _ & _ & _ & _ & Hc & Hr & _).
  destruct (run_fx_gets (fx (i_arg i)) (fx_entry (i_ctx i)) []
              (fx_entry_scoped _)) as (tr' & E1 & E2).
  rewrite Hr, E1. simpl. rewrite E2, Hc. reflexivity.
Qed.

(** X5. In a cycle whose callback never calls [set_timeout], every
    [get_timeout()] call returns the timeout of the wait just finished. *)
Theorem get_timeout_without_set_timeout T c i :
  invoked (body T c) = Some i ->
  calls_set_timeout (r_calls (i_result i)) = false ->
  Forall (eq (i_wait_timeout i)) (got_timeouts (r_calls (i_result i))).
Proof.
  intros Hi Hn.
  destruct (loop_body_invoked pred fx ax T c i Hi)
    as (r & _ & _ & HT & _ & Hc & Hr & _).
  destruct (run_fx_gets (fx (i_arg i)) (fx_entry (i_ctx i)) []
              (fx_entry_scoped _)) as (tr' & E1 & E2).
  rewrite Hr, E1 in Hn |- *. simpl in Hn |- *.
  rewrite E2, Hc, HT. simpl. apply replay_gets_no_set, Hn.
Qed.

(** X6. When the predicate is already true as the iteration starts, and no
    stop is requested, the loop does not wait at all: the callback runs at
    once, whatever the timeout, with [was_timeout()] false, and no wake-up is
    used up. *)
Theorem predicate_true_at_entry_skips_wait T c :
  pred (w_ext (c_entry c)) = true ->
  m_thread_stop (c_entry c) = false ->
  exists i t',
    body T c = it_next i t' /\
    wait_at (i_wait i) = 0 /\
    wait_rest (i_wait i) = c_wakes c /\
    ctx.was_timeout (i_ctx i) = false /\
    i_arg i = ax (w_ext (c_entry c)).
Proof.
  intros Hp Hs.
  assert (Hw : wait_for T (stop_waiting pred) 0 (c_entry c) (c_wakes c) =
               Some {| wait_res := true; wait_at := 0; wait_world := c_entry c;
                       wait_rest := c_wakes c |}).
  { destruct (c_wakes c); simpl; unfold stop_waiting; rewrite Hp; reflexivity. }
  pose proof (loop_body_dispatch pred fx ax T c _ Hw Hs) as E. simpl in E.
  do 2 eexists. split; [exact E | ]. simpl. repeat split.
Qed.

(** X7. When the stop flag is already set as the iteration starts (the
    thread was started after a [stop], or [stop] ran during the callback),
    the thread function returns without waiting and without invoking the
    callback, whatever the predicate, the timeout and the wake-ups. *)
Theorem stop_set_at_entry_returns_at_once T c rest :
  m_thread_stop (c_entry c) = true ->
  wait_for T (stop_waiting pred) 0 (c_entry c) (c_wakes c) =
    Some {| wait_res := true; wait_at := 0; wait_world := c_entry c;
            wait_rest := c_wakes c |} /\
  proc T (c :: rest) =
    {| t_invocations := []; t_log := [log_stop]; t_end := Stopped |}.
Proof.
  intros Hs.
  assert (Hw : wait_for T (stop_waiting pred) 0 (c_entry c) (c_wakes c) =
               Some {| wait_res := true; wait_at := 0; wait_world := c_entry c;
                       wait_rest := c_wakes c |}).
  { destruct (c_wakes c); simpl; unfold stop_waiting; rewrite Hs, orb_true_r;
      reflexivity. }
  split; [exact Hw | ].
  simpl. unfold loop_body. rewrite Hw. simpl. rewrite Hs. reflexivity.
Qed.

End LoopMore.

(** ** Whole runs of the thread function *)

Section Runs.

Context {Ext Arg : Type}.
Variable pred : Ext -> bool.
Variable fx : Arg -> fx_prog.
Variable ax : Ext -> Arg.

Local Abbreviation body := (loop_body pred fx ax).
Local Abbreviation proc := (thread_proc pred fx ax).

(** An iteration never ends the process. *)
Lemma loop_body_never_aborts T c i : body T c <> it_abort i.
Proof.
  intros E.
  destruct (loop_body_invoked pred fx ax T c i) as (r & _ & _ & _ & _ & _ & _ & _ & _ & E').
  { rewrite E. reflexivity. }
  rewrite E in E'. discriminate.
Qed.

(** X8. No callback and no schedule ends the process: the unlock holders of
    a callback never make a destructor throw, so the thread function is
    either still in its loop, blocked in the wait, or has returned after a
    stop request. *)
Theorem thread_never_aborts schedule : forall T,
  t_end (thread_proc pred fx ax T schedule) <> Aborted.
Proof.
  induction schedule as [ | c rest IH]; intros T; simpl; [discriminate | ].
  destruct (body T c) as [ | r l | i | i t'] eqn:E; simpl; try discriminate.
  - exact (fun _ => loop_body_never_aborts T c i E).
  - apply IH.
Qed.

(** X9. The log of a run holds one exception line for each invocation whose
    callback threw, in order, and nothing else but the stop line, which is
    its last line exactly when the thread function has returned. *)
Theorem log_is_one_line_per_exception schedule : forall T,
  t_log (proc T schedule) =
    exception_lines (t_invocations (proc T schedule)) ++
    stop_line (t_end (proc T schedule)).
Proof.
  induction schedule as [ | c rest IH]; intros T; simpl; [reflexivity | ].
  destruct (body T c) as [ | r l | i | i t'] eqn:E; simpl.
  - reflexivity.
  - unfold loop_body in E.
    destruct (wait_for T (stop_waiting pred) 0 (c_entry c) (c_wakes c))
      as [r' | ]; [ | discriminate].
    destruct (m_thread_stop (wait_world r')).
    + injection E as _ <-. reflexivity.
    + destruct (r_outcome _) in E; discriminate.
  - destruct (loop_body_never_aborts T c i E).
  - destruct (loop_body_invoked pred fx ax T c i) as (r & _ & _ & _ & _ & _ & _ & _ & Hl & _).
    { rewrite E. reflexivity. }
    rewrite Hl, IH.
    destruct (r_outcome (i_result i)); reflexivity.
Qed.

(** What holds of the invocation of any iteration holds of all the
    invocations of a run. *)
Lemma invocations_forall (P : invocation Ext Arg -> Prop) :
  (forall T c i, invoked (body T c) = Some i -> P i) ->
  forall schedule T, Forall P (t_invocations (proc T schedule)).
Proof.
  intros HP schedule.
  induction schedule as [ | c rest IH]; intros T; simpl; [constructor | ].
  destruct (body T c) as [ | r l | i | i t'] eqn:E; simpl; try constructor.
  - apply (HP T c). rewrite E. reflexivity.
  - constructor.
  - apply (HP T c). rewrite E. reflexivity.
  - apply IH.
Qed.

(** The timeout an iteration hands to the next one. *)
Lemma loop_body_next_timeout T c i t' :
  body T c = it_next i t' ->
  i_wait_timeout i = T /\ t' = last_set_timeout (r_calls (i_result i)) T.
Proof.
  intros E.
  destruct (loop_body_invoked pred fx ax T c i)
    as (r & _ & _ & HT & _ & Hc & Hr & _ & _ & E').
  { rewrite E. reflexivity. }
  rewrite E in E'. injection E' as ->.
  split; [exact HT | ].
  destruct (run_fx_context (fx (i_arg i)) (fx_entry (i_ctx i)) []
              (fx_entry_scoped _)) as (tr' & E1 & _ & E3).
  rewrite Hr at 1. rewrite E3. rewrite Hr, E1, Hc. reflexivity.
Qed.

(** X10. Along a run the timeouts are chained: the first wait uses the
    timeout given to [start], every later wait uses the value of the last
    [set_timeout] of the invocation before it, or that invocation's own
    timeout when it made none, and the same holds for the wait the thread
    is about to start. *)
Theorem timeouts_are_chained schedule : forall T,
  chained T (t_invocations (proc T schedule)) /\
  match t_end (proc T schedule) with
  | Running t' => t' = timeout_after T (t_invocations (proc T schedule))
  | _ => True
  end.
Proof.
  induction schedule as [ | c rest IH]; intros T; simpl.
  - split; [exact I | reflexivity].
  - destruct (body T c) as [ | r l | i | i t'] eqn:E; simpl.
    + split; exact I.
    + split; exact I.
    + destruct (loop_body_never_aborts T c i E).
    + destruct (loop_body_next_timeout T c i t' E) as (HT & Ht').
      destruct (IH t') as (Hch & Hend). rewrite <- Ht'.
      split; [split; assumption | exact Hend].
Qed.

(** X11. Every invocation of a run was made on a wake-up that did not see
    the stop flag; its [was_timeout()] is the negation of the caller's
    predicate at that wake-up, its [get_timeout()] starts as the timeout of
    the wait, and its extra argument is the caller's object as it was at that
    wake-up. *)
Theorem invocations_reflect_their_wake schedule T :
  Forall (fun i =>
            m_thread_stop (wait_world (i_wait i)) = false /\
            ctx.was_timeout (i_ctx i) = negb (pred (w_ext (wait_world (i_wait i)))) /\
            ctx.get_timeout (i_ctx i) = i_wait_timeout i /\
            i_arg i = ax (w_ext (wait_world (i_wait i))))
         (t_invocations (proc T schedule)).
Proof.
  apply invocations_forall. clear T. intros T c i Hi.
  destruct (loop_body_invoked pred fx ax T c i Hi)
    as (r & Hw & Hs & HT & Hwr & Hc & _ & Ha & _).
  pose proof (wait_for_res _ _ _ _ _ _ Hw) as Hres.
  unfold stop_waiting in Hres. rewrite Hs, orb_false_r in Hres.
  rewrite Hwr, Hc, HT, Ha. simpl. rewrite Hres. repeat split. exact Hs.
Qed.

(** X12. A run over a schedule in two parts, when the thread is still in
    its loop after the first part, is the run over the first part followed
    by the run over the second part started with the timeout the first part
    left. *)
Theorem run_composes s1 : forall T s2 t',
  t_end (thread_proc pred fx ax T s1) = Running t' ->
  thread_proc pred fx ax T (s1 ++ s2) =
    {| t_invocations := t_invocations (proc T s1) ++ t_invocations (proc t' s2);
       t_log := t_log (proc T s1) ++ t_log (proc t' s2);
       t_end := t_end (proc t' s2) |}.
Proof.
  induction s1 as [ | c rest IH]; intros T s2 t'; simpl.
  - intros [= ->]. destruct (proc t' s2). reflexivity.
  - destruct (body T c) as [ | r l | i | i t1] eqn:E; simpl; try discriminate.
    intros Hend. rewrite (IH t1 s2 t' Hend). simpl.
    rewrite app_assoc. reflexivity.
Qed.

(** X13. The return after a stop request is final: once the thread function
    has returned, nothing that the environment does later adds an invocation
    or a log line. *)
Theorem run_is_final_once_stopped s1 : forall T s2,
  t_end (thread_proc pred fx ax T s1) = Stopped ->
  thread_proc pred fx ax T (s1 ++ s2) = thread_proc pred fx ax T s1.
Proof.
  induction s1 as [ | c rest IH]; intros T s2; simpl; [discriminate | ].
  destruct (body T c) as [ | r l | i | i t1] eqn:E; simpl;
    try reflexivity; try discriminate.
  intros Hend. rewrite (IH t1 s2 Hend). reflexivity.
Qed.

End Runs.

(** ** The overload of [start] without a predicate *)

(** X14. A thread started without a predicate only ever invokes the
    callback on a timeout: in every invocation [was_timeout()] is true, for
    every call of it, and the wait had reached its deadline. A [notify] never
    leads to an invocation. *)
Theorem no_pred_invocations_are_timeouts {Ext Arg : Type}
    (fx : Arg -> fx_prog) (ax : Ext -> Arg) (schedule : list (cycle Ext))
    (T : duration) :
  Forall (fun i =>
            ctx.was_timeout (i_ctx i) = true /\
            Forall (eq true) (seen_was_timeout (r_calls (i_result i))) /\
            i_wait_timeout i <= wait_at (i_wait i))
         (t_invocations (thread_proc_no_pred fx ax T schedule)).
Proof.
  unfold thread_proc_no_pred. apply invocations_forall. clear T.
  intros T c i Hi.
  destruct (loop_body_invoked no_pred fx ax T c i Hi)
    as (r & Hw & Hs & HT & Hwr & Hc & Hr & _).
  pose proof (wait_for_res _ _ _ _ _ _ Hw) as Hres.
  unfold stop_waiting, no_pred in Hres. rewrite Hs in Hres. simpl in Hres.
  split; [rewrite Hc, Hres; reflexivity | ]. split.
  - pose proof (run_fx_was_timeout (fx (i_arg i)) (fx_entry (i_ctx i)) []
                  (fx_entry_scoped _) (Forall_nil _)) as H.
    rewrite <- Hr in H. rewrite Hc, Hres in H. exact H.
  - rewrite HT, Hwr. apply (wait_for_false_deadline _ _ _ _ _ _ Hw Hres).
Qed.

(** ** Asking for a second unlock holder *)

(** X15. A callback that calls [unlock()] while it already has a live holder
    fails there: the second [unlock] throws, what the callback had planned
    after it never runs, the first holder is destroyed by the unwinding and
    the mutex is owned again, and the loop logs the exception and waits
    again with the same timeout. *)
Theorem second_unlock_throws_and_is_caught {Ext Arg : Type}
    (pred : Ext -> bool) (k : Arg -> fx_prog) (ax : Ext -> Arg) T c i :
  invoked (loop_body pred (fun a => fx_unlock_twice (k a)) ax T c) = Some i ->
  r_outcome (i_result i) = Threw /\
  r_calls (i_result i) = [call_unlock; call_unlock] /\
  owns_lock (st_lck (r_state (i_result i))) = true /\
  i_log i = [log_exception] /\
  loop_body pred (fun a => fx_unlock_twice (k a)) ax T c = it_next i T.
Proof.
  intros Hi.
  destruct (loop_body_invoked pred _ ax T c i Hi)
    as (r & _ & _ & _ & _ & Hc & Hr & _ & Hl & E).
  rewrite Hr in Hl, E |- *. rewrite Hc in Hl, E |- *. simpl in Hl, E |- *.
  repeat split; assumption.
Qed.

(** ** Starting twice, and starting after a stop *)

(** X16. [start] does not guard against a second call: on an object whose
    thread was started and not yet stopped, assigning the new thread to the
    joinable handle ends the process. *)
Theorem second_start_terminates (t t1 : Owner.simple_thread) :
  Owner.start t = Some t1 ->
  Owner.start t1 = None.
Proof.
  unfold Owner.start. destruct (Owner.joinable (Owner.m_thread t));
    [discriminate | ].
  intros [= <-]. reflexivity.
Qed.

(** X17. Nothing clears the stop flag, so an object cannot be used again
    after a [stop]: [start] succeeds, but the new thread finds the flag set,
    logs the stop request and returns at once, without ever invoking the
    callback. *)
Theorem start_after_stop_never_invokes {Ext Arg : Type}
    (pred : Ext -> bool) (fx : Arg -> fx_prog) (ax : Ext -> Arg)
    (t t1 : Owner.simple_thread) T c rest :
  Owner.start (fst (Owner.stop t)) = Some t1 ->
  m_thread_stop (c_entry c) = Owner.m_thread_stop t1 ->
  Owner.m_thread t1 = Owner.thread_running /\
  thread_proc pred fx ax T (c :: rest) =
    {| t_invocations := []; t_log := [log_stop]; t_end := Stopped |}.
Proof.
  intros Hst Hflag.
  assert (H1 : Owner.m_thread t1 = Owner.thread_running /\
               Owner.m_thread_stop t1 = true).
  { destruct t as [[ | | ] b]; simpl in Hst; injection Hst as <-;
      split; reflexivity. }
  destruct H1 as (Hth & Hs). split; [exact Hth | ].
  rewrite Hs in Hflag.
  assert (Hw : wait_for T (stop_waiting pred) 0 (c_entry c) (c_wakes c) =
               Some {| wait_res := true; wait_at := 0; wait_world := c_entry c;
                       wait_rest := c_wakes c |}).
  { destruct (c_wakes c); simpl; unfold stop_waiting;
      rewrite Hflag, orb_true_r; reflexivity. }
  simpl. unfold loop_body. rewrite Hw. simpl. rewrite Hflag. reflexivity.
Qed.

(** ** The further properties on the sample callers *)

(** A [notify] after 0.1 s that finds the predicate false, before the event
    after 0.3 s. *)
Lemma wait_for_ignores_false_wakes_witness :
  wait_for (Sample.seconds 1) (stop_waiting Sample.pred) 0 Sample.quiet
           ([ {| wk_at := 100000000; wk_world := Sample.quiet |} ] ++
            [ {| wk_at := 300000000; wk_world := Sample.signalled |} ]) =
  wait_for (Sample.seconds 1) (stop_waiting Sample.pred) 0 Sample.quiet
           [ {| wk_at := 300000000; wk_world := Sample.signalled |} ].
Proof.
  apply (wait_for_ignores_false_wakes (Sample.seconds 1)
           (stop_waiting Sample.pred)
           [ {| wk_at := 100000000; wk_world := Sample.quiet |} ]).
  - reflexivity.
  - constructor; [split; reflexivity | constructor].
Defined.

(** A [notify] after 0.3 s, then the deadline of a one-second wait. *)
Lemma wait_for_returns_by_deadline_witness :
  exists r,
    wait_for (Sample.seconds 1) (stop_waiting Sample.pred) 0
             (c_entry Sample.cycle_notify_only)
             (c_wakes Sample.cycle_notify_only) = Some r /\
    (wait_res r = true \/ Sample.seconds 1 <= wait_at r).
Proof.
  apply (wait_for_returns_by_deadline (Sample.seconds 1)
           (stop_waiting Sample.pred) (c_wakes Sample.cycle_notify_only)).
  apply Exists_cons_tl, Exists_cons_hd. vm_compute. discriminate.
Defined.

(** Two seconds set, then asked for, after a one-second wait. *)
Lemma get_timeout_returns_latest_value_witness :
  exists i,
    invoked (loop_body Sample.pred Sample.fx_set_then_get Sample.ax
                       (Sample.seconds 1) Sample.cycle_timeout) = Some i /\
    got_timeouts (r_calls (i_result i)) =
      replay_gets (r_calls (i_result i)) (Sample.seconds 1).
Proof.
  eexists. split; [reflexivity | ].
  apply (get_timeout_returns_latest_value Sample.pred Sample.fx_set_then_get
           Sample.ax (Sample.seconds 1) Sample.cycle_timeout).
  reflexivity.
Defined.

(** Two [get_timeout] calls and no [set_timeout]. *)
Lemma get_timeout_without_set_timeout_witness :
  exists i,
    invoked (loop_body Sample.pred Scenario.fx_get_only Sample.ax
                       (Sample.seconds 1) Sample.cycle_timeout) = Some i /\
    calls_set_timeout (r_calls (i_result i)) = false /\
    Forall (eq (i_wait_timeout i)) (got_timeouts (r_calls (i_result i))).
Proof.
  eexists. split; [reflexivity | ]. split; [reflexivity | ].
  apply (get_timeout_without_set_timeout Sample.pred Scenario.fx_get_only
           Sample.ax (Sample.seconds 1) Sample.cycle_timeout);
    reflexivity.
Defined.

(** [event1] set before the iteration starts. *)
Lemma predicate_true_at_entry_skips_wait_witness :
  exists i t',
    loop_body Sample.pred Sample.fx_print Sample.ax (Sample.seconds 1)
              Scenario.cycle_already_signalled = it_next i t' /\
    wait_at (i_wait i) = 0 /\
    wait_rest (i_wait i) = c_wakes Scenario.cycle_already_signalled /\
    ctx.was_timeout (i_ctx i) = false /\
    i_arg i = Sample.ax (w_ext (c_entry Scenario.cycle_already_signalled)).
Proof.
  apply (predicate_true_at_entry_skips_wait Sample.pred Sample.fx_print
           Sample.ax (Sample.seconds 1) Scenario.cycle_already_signalled);
    reflexivity.
Defined.

(** The stop flag set before the iteration starts. *)
Lemma stop_set_at_entry_returns_at_once_witness :
  wait_for (Sample.seconds 1) (stop_waiting Sample.pred) 0
           (c_entry Scenario.cycle_already_stopped)
           (c_wakes Scenario.cycle_already_stopped) =
    Some {| wait_res := true; wait_at := 0;
            wait_world := c_entry Scenario.cycle_already_stopped;
            wait_rest := c_wakes Scenario.cycle_already_stopped |} /\
  thread_proc Sample.pred Sample.fx Sample.ax (Sample.seconds 1)
              [Scenario.cycle_already_stopped; Sample.cycle_timeout] =
    {| t_invocations := []; t_log := [log_stop]; t_end := Stopped |}.
Proof.
  apply (stop_set_at_entry_returns_at_once Sample.pred Sample.fx Sample.ax
           (Sample.seconds 1) Scenario.cycle_already_stopped
           [Sample.cycle_timeout]).
  reflexivity.
Defined.

(** The event cycle leaves a timeout of two seconds for what follows. *)
Lemma run_composes_witness :
  t_end (thread_proc Sample.pred Sample.fx Sample.ax (Sample.seconds 1)
                     [Sample.cycle_event]) = Running (Sample.seconds 2) /\
  thread_proc Sample.pred Sample.fx Sample.ax (Sample.seconds 1)
              ([Sample.cycle_event] ++ [Sample.cycle_timeout_2s; Sample.cycle_stop]) =
    {| t_invocations :=
         t_invocations (thread_proc Sample.pred Sample.fx Sample.ax
                                    (Sample.seconds 1) [Sample.cycle_event]) ++
         t_invocations (thread_proc Sample.pred Sample.fx Sample.ax
                                    (Sample.seconds 2)
                                    [Sample.cycle_timeout_2s; Sample.cycle_stop]);
       t_log :=
         t_log (thread_proc Sample.pred Sample.fx Sample.ax
                            (Sample.seconds 1) [Sample.cycle_event]) ++
         t_log (thread_proc Sample.pred Sample.fx Sample.ax
                            (Sample.seconds 2)
                            [Sample.cycle_timeout_2s; Sample.cycle_stop]);
       t_end :=
         t_end (thread_proc Sample.pred Sample.fx Sample.ax
                            (Sample.seconds 2)
                            [Sample.cycle_timeout_2s; Sample.cycle_stop]) |}.
Proof.
  split; [reflexivity | ].
  apply (run_composes Sample.pred Sample.fx Sample.ax [Sample.cycle_event]
           (Sample.seconds 1) [Sample.cycle_timeout_2s; Sample.cycle_stop]
           (Sample.seconds 2)).
  reflexivity.
Defined.

(** A timeout, then a [stop]; what comes after is never run. *)
Lemma run_is_final_once_stopped_witness :
  t_end (thread_proc Sample.pred Sample.fx Sample.ax (Sample.seconds 1)
                     [Sample.cycle_timeout; Sample.cycle_stop]) = Stopped /\
  thread_proc Sample.pred Sample.fx Sample.ax (Sample.seconds 1)
              ([Sample.cycle_timeout; Sample.cycle_stop] ++ [Sample.cycle_event]) =
  thread_proc Sample.pred Sample.fx Sample.ax (Sample.seconds 1)
              [Sample.cycle_timeout; Sample.cycle_stop].
Proof.
  split; [reflexivity | ].
  apply (run_is_final_once_stopped Sample.pred Sample.fx Sample.ax
           [Sample.cycle_timeout; Sample.cycle_stop] (Sample.seconds 1)
           [Sample.cycle_event]).
  reflexivity.
Defined.

(** Two [unlock] calls before printing. *)
Lemma second_unlock_throws_and_is_caught_witness :
  exists i,
    invoked (loop_body Sample.pred (fun a => fx_unlock_twice (Sample.fx_print a))
                       Sample.ax (Sample.seconds 1) Sample.cycle_timeout) = Some i /\
    r_outcome (i_result i) = Threw /\
    r_calls (i_result i) = [call_unlock; call_unlock] /\
    owns_lock (st_lck (r_state (i_result i))) = true /\
    i_log i = [log_exception] /\
    loop_body Sample.pred (fun a => fx_unlock_twice (Sample.fx_print a))
              Sample.ax (Sample.seconds 1) Sample.cycle_timeout =
      it_next i (Sample.seconds 1).
Proof.
  eexists. split; [reflexivity | ].
  apply (second_unlock_throws_and_is_caught Sample.pred Sample.fx_print
           Sample.ax (Sample.seconds 1) Sample.cycle_timeout).
  reflexivity.
Defined.

(** A second [start] on a fresh object that was started. *)
Lemma second_start_terminates_witness :
  Owner.start Owner.init = Some Scenario.started /\
  Owner.start Scenario.started = None.
Proof.
  split; [reflexivity | ].
  apply (second_start_terminates Owner.init Scenario.started). reflexivity.
Defined.

(** [start], [stop], [start]: the second thread returns at once. *)
Lemma start_after_stop_never_invokes_witness :
  Owner.start (fst (Owner.stop Scenario.started)) = Some Scenario.restarted /\
  m_thread_stop (c_entry Scenario.cycle_already_stopped) =
    Owner.m_thread_stop Scenario.restarted /\
  Owner.m_thread Scenario.restarted = Owner.thread_running /\
  thread_proc Sample.pred Sample.fx Sample.ax (Sample.seconds 1)
              [Scenario.cycle_already_stopped; Sample.cycle_timeout] =
    {| t_invocations := []; t_log := [log_stop]; t_end := Stopped |}.
Proof.
  split; [reflexivity | ]. split; [reflexivity | ].
  apply (start_after_stop_never_invokes Sample.pred Sample.fx Sample.ax
           Scenario.started Scenario.restarted (Sample.seconds 1)
           Scenario.cycle_already_stopped [Sample.cycle_timeout]);
    reflexivity.
Defined.
